(** * ChatApp: presence tracking and message retention

    A shallow embedding of the room handlers of the chat server
    (join-room, leave-room, active-users, send-message, messages), of the
    chat room's [sendMessage] that posts to them, and the properties of the
    presence tracker and of the message log.

    The handlers run against two collaborators: the key-value store
    (whole-value [get]/[set] on string keys) and the wall clock
    ([Date.now()]).  Both are effects of the handler, so a handler is a
    function on a [world] that holds the store, the schedule of clock
    readings and the schedule of store outages.  A handler starts from the
    properties it destructures from the parsed JSON body, or from its route
    parameter. *)

From stdpp Require Import gmap strings list pretty.

Open Scope string_scope.
Open Scope list_scope.
Open Scope Z_scope.

(** ** Values of a request *)

(** A property destructured from the JSON body of a request.  The client
    types every one of them as a string ([imageUrl] as an optional one, sent
    as [null] when no image was picked), so a property is absent, [null] or a
    string. *)
Inductive field :=
| Undefined
| Null
| Str (s : string).

#[global] Instance field_eq_dec : EqDecision field.
Proof. solve_decision. Defined.

(** JavaScript truthiness: [!v] is [negb (truthy v)]. *)
Definition truthy (v : field) : bool :=
  match v with
  | Undefined | Null => false
  | Str s => bool_decide (s ≠ "")
  end.

(** A property that is missing or empty. *)
Definition missing (v : field) : Prop :=
  v = Undefined ∨ v = Null ∨ v = Str "".

(** The string a template literal [`${v}`] puts in place of [v]. *)
Definition to_str (v : field) : string :=
  match v with
  | Undefined => "undefined"
  | Null => "null"
  | Str s => s
  end.

(** [v || undefined] *)
Definition or_undefined (v : field) : field :=
  if truthy v then v else Undefined.

(** ** Stored data *)

(** [{ userId, username, joinedAt: Date.now() }] *)
Module User.
Record t := mk { userId : field; username : field; joinedAt : Z }.
End User.

(** [{ id, userId, username, message, imageUrl, timestamp }].  A property
    whose value is [undefined] is dropped when the object is serialised, for
    the store and for the reply alike: [Undefined] is the absent property. *)
Module Message.
Record t := mk {
  id : string;
  userId : field;
  username : field;
  message : field;
  imageUrl : field;
  timestamp : Z
}.
End Message.

(** The store's values are untyped arrays of objects.  An element has one of
    the two shapes the handlers build; the handlers only ever read the
    properties [userId] and [joinedAt] of an element. *)
Inductive entry :=
| EUser (u : User.t)
| EMessage (m : Message.t).

#[global] Instance user_eq_dec : EqDecision User.t.
Proof. solve_decision. Defined.
#[global] Instance message_eq_dec : EqDecision Message.t.
Proof. solve_decision. Defined.
#[global] Instance entry_eq_dec : EqDecision entry.
Proof. solve_decision. Defined.

(** [u.userId] *)
Definition entry_userId (e : entry) : field :=
  match e with
  | EUser u => User.userId u
  | EMessage m => Message.userId m
  end.

(** [u.joinedAt]; a message object has no such property. *)
Definition entry_joinedAt (e : entry) : option Z :=
  match e with
  | EUser u => Some (User.joinedAt u)
  | EMessage _ => None
  end.

(** ** The world: store, clock, outages *)

Inductive kv_event :=
| KvGet (key : string)
| KvSet (key : string) (value : list entry)
| KvFailed.

Record world := World {
  kv : gmap string (list entry);   (* contents of the store *)
  kvlog : list kv_event;           (* store calls made so far, oldest first *)
  clock : nat → Z;                 (* the n-th reading of Date.now() *)
  ticks : nat;                     (* readings taken so far *)
  outage : nat → bool              (* does the n-th store call fail? *)
}.

Definition log_event (e : kv_event) (w : world) : world :=
  World (kv w) (kvlog w ++ [e]) (clock w) (ticks w) (outage w).

(** A computation returns a value or throws. *)
Inductive outcome (A : Type) :=
| Val (a : A)
| Exn.
Arguments Val {A} a.
Arguments Exn {A}.

Definition M (A : Type) : Type := world → outcome A * world.

Definition ret {A} (a : A) : M A := λ w, (Val a, w).

Definition bind {A B} (m : M A) (k : A → M B) : M B :=
  λ w, match m w with
       | (Val a, w') => k a w'
       | (Exn, w') => (Exn, w')
       end.

Notation "'let!' x ':=' m 'in' k" := (bind m (λ x, k))
  (at level 10, x name, m at level 100, k at level 200).
Notation "'do!' m 'in' k" := (bind m (λ _, k))
  (at level 10, m at level 100, k at level 200).

(** [try { body } catch (error) { return c.json({ error }, 500) }] *)
Definition try_catch {A} (body : M A) (handler : A) : world → A * world :=
  λ w, match body w with
       | (Val a, w') => (a, w')
       | (Exn, w') => (handler, w')
       end.

(** Modelled from the spec: the module [kv_store.tsx] is not part of the
    sources.  [get(key)] yields the value or absent, [set(key, value)]
    replaces the whole value; either call can fail, which the handlers see
    as an exception. *)
Definition kv_get (key : string) : M (option (list entry)) :=
  λ w, if outage w (length (kvlog w))
       then (Exn, log_event KvFailed w)
       else (Val (kv w !! key), log_event (KvGet key) w).

(** Modelled from the spec: [set(key, value)] of the same module; a failed
    call leaves the store as it was. *)
Definition kv_set (key : string) (value : list entry) : M unit :=
  λ w, if outage w (length (kvlog w))
       then (Exn, log_event KvFailed w)
       else (Val tt,
             World (<[key := value]> (kv w)) (kvlog w ++ [KvSet key value])
                   (clock w) (ticks w) (outage w)).

(** [Date.now()] *)
Definition Date_now : M Z :=
  λ w, (Val (clock w (ticks w)),
        World (kv w) (kvlog w) (clock w) (S (ticks w)) (outage w)).

(** [(await kv.get(key)) || []]: an array is truthy, whatever its length. *)
Definition or_empty (v : option (list entry)) : list entry :=
  match v with
  | Some l => l
  | None => []
  end.

(** ** Replies *)

Inductive response :=
| RSuccess                                   (* { success: true } *)
| RUsers (users : list entry)                (* { users } *)
| RSent (message : Message.t)                (* { success: true, message } *)
| RMessages (messages : list entry)          (* { messages } *)
| RError (error : string) (status : Z).      (* { error }, status *)

(** ** The handlers *)

Definition usersKey (roomId : field) : string :=
  "room:" +:+ to_str roomId +:+ ":users".

Definition messagesKey (roomId : field) : string :=
  "room:" +:+ to_str roomId +:+ ":messages".

(** POST join-room *)
Definition join_room (roomId username userId : field) : world → response * world :=
  try_catch
    (if negb (truthy roomId) || negb (truthy username) || negb (truthy userId)
     then ret (RError "Missing required fields" 400)
     else
       let! stored := kv_get (usersKey roomId) in
       let users := or_empty stored in
       let filteredUsers :=
         filter (λ u, entry_userId u ≠ userId) users in
       let! now := Date_now in
       let newUser := User.mk userId username now in
       let filteredUsers := filteredUsers ++ [EUser newUser] in
       do! kv_set (usersKey roomId) filteredUsers in
       ret RSuccess)
    (RError "Failed to join room" 500).

(** POST leave-room *)
Definition leave_room (roomId userId : field) : world → response * world :=
  try_catch
    (if negb (truthy roomId) || negb (truthy userId)
     then ret (RError "Missing required fields" 400)
     else
       let! stored := kv_get (usersKey roomId) in
       let users := or_empty stored in
       let filteredUsers :=
         filter (λ u, entry_userId u ≠ userId) users in
       do! kv_set (usersKey roomId) filteredUsers in
       ret RSuccess)
    (RError "Failed to leave room" 500).

(** [u.joinedAt > fiveMinutesAgo]; the comparison is false when the
    property is missing. *)
Definition joined_after (fiveMinutesAgo : Z) (u : entry) : bool :=
  match entry_joinedAt u with
  | Some t => bool_decide (fiveMinutesAgo < t)
  | None => false
  end.

(** GET active-users/:roomId.  A route parameter is always a string. *)
Definition active_users (roomId : string) : world → response * world :=
  try_catch
    (let! stored := kv_get (usersKey (Str roomId)) in
     let users := or_empty stored in
     let! now := Date_now in
     let fiveMinutesAgo := now - 5 * 60 * 1000 in
     let activeUsers := filter (λ u, joined_after fiveMinutesAgo u = true) users in
     do! (if bool_decide (length activeUsers ≠ length users)
          then kv_set (usersKey (Str roomId)) activeUsers
          else ret tt) in
     ret (RUsers activeUsers))
    (RError "Failed to fetch active users" 500).

(** [messages.splice(0, messages.length - 100)] under the guard
    [messages.length > 100]. *)
Definition keep_last_100 (messages : list entry) : list entry :=
  if bool_decide (100 < length messages)%nat
  then drop (length messages - 100) messages
  else messages.

(** POST send-message.  The clock is read twice: for the id, then for the
    timestamp. *)
Definition send_message (roomId username userId message imageUrl : field)
  : world → response * world :=
  try_catch
    (if negb (truthy roomId) || negb (truthy username) || negb (truthy userId)
        || negb (truthy message)
     then ret (RError "Missing required fields" 400)
     else
       let! stored := kv_get (messagesKey roomId) in
       let messages := or_empty stored in
       let! t_id := Date_now in
       let! t_stamp := Date_now in
       let newMessage :=
         Message.mk (pretty t_id +:+ "-" +:+ to_str userId)
                    userId username message (or_undefined imageUrl) t_stamp in
       let messages := messages ++ [EMessage newMessage] in
       let messages := keep_last_100 messages in
       do! kv_set (messagesKey roomId) messages in
       ret (RSent newMessage))
    (RError "Failed to send message" 500).

(** GET messages/:roomId *)
Definition get_messages (roomId : string) : world → response * world :=
  try_catch
    (let! stored := kv_get (messagesKey (Str roomId)) in
     let messages := or_empty stored in
     ret (RMessages messages))
    (RError "Failed to fetch messages" 500).

(** ** Worlds to run the handlers in *)

(** A store that answers every call. *)
Definition healthy (w : world) : Prop := ∀ n, outage w n = false.

(** An empty store that never fails, with the clock [c]. *)
Definition fresh (c : nat → Z) : world :=
  World ∅ [] c 0 (λ _, false).

(** ** The application: routing and serving a run of requests *)

Inductive request :=
| JoinRoom (roomId username userId : field)
| LeaveRoom (roomId userId : field)
| ActiveUsers (roomId : string)
| SendMessage (roomId username userId message imageUrl : field)
| GetMessages (roomId : string).

Definition handle (q : request) : world → response * world :=
  match q with
  | JoinRoom roomId username userId => join_room roomId username userId
  | LeaveRoom roomId userId => leave_room roomId userId
  | ActiveUsers roomId => active_users roomId
  | SendMessage roomId username userId message imageUrl =>
      send_message roomId username userId message imageUrl
  | GetMessages roomId => get_messages roomId
  end.

(** Requests are served one at a time, in order. *)
Fixpoint serve (qs : list request) (w : world) : list response * world :=
  match qs with
  | [] => ([], w)
  | q :: qs =>
      let '(r, w1) := handle q w in
      let '(rs, w2) := serve qs w1 in
      (r :: rs, w2)
  end.

(** The lists a room holds, as a handler loads them. *)
Definition room_users (w : world) (roomId : string) : list entry :=
  or_empty (kv w !! usersKey (Str roomId)).

Definition room_messages (w : world) (roomId : string) : list entry :=
  or_empty (kv w !! messagesKey (Str roomId)).

(** A well-formed send-message request to the room [roomId]. *)
Definition is_send_to (roomId : string) (q : request) : bool :=
  match q with
  | SendMessage r username userId message _ =>
      bool_decide (r = Str roomId) && truthy r && truthy username
      && truthy userId && truthy message
  | _ => false
  end.

(** The message a reply carries, if it is the reply to a send. *)
Definition sent_message (r : response) : option Message.t :=
  match r with
  | RSent m => Some m
  | _ => None
  end.

(** The last 100 elements of a list. *)
Definition last_100 (l : list entry) : list entry :=
  drop (length l - 100) l.

(** The one key of the store a request works on: the [usersKey] or
    [messagesKey] its handler computes. *)
Definition request_key (q : request) : string :=
  match q with
  | JoinRoom roomId _ _ => usersKey roomId
  | LeaveRoom roomId _ => usersKey roomId
  | ActiveUsers roomId => usersKey (Str roomId)
  | SendMessage roomId _ _ _ _ => messagesKey roomId
  | GetMessages roomId => messagesKey (Str roomId)
  end.

(** The room a request names. *)
Definition request_room (q : request) : field :=
  match q with
  | JoinRoom roomId _ _ => roomId
  | LeaveRoom roomId _ => roomId
  | ActiveUsers roomId => Str roomId
  | SendMessage roomId _ _ _ _ => roomId
  | GetMessages roomId => Str roomId
  end.


(** ** The client: sending from the chat room *)

(** [sendMessage] of the [ChatRoom] component, as the request it posts to
    send-message, or [None] when it returns without posting.  [trimmed] is
    [inputMessage.trim()]; [selectedImage] is [None] when no file is picked
    and otherwise carries what [await uploadImage()] yields for the picked
    file: the address the upload route returned, or [null] when the upload
    failed.  The props [roomId], [username], [userId] are strings. *)
Definition sendMessage (roomId username userId trimmed : string)
    (selectedImage : option field) (sending : bool) : option request :=
  if (bool_decide (trimmed = "") && bool_decide (selectedImage = None)) || sending
  then None
  else
    let imageUrl :=
      match selectedImage with
      | Some uploaded => uploaded
      | None => Null
      end in
    Some (SendMessage (Str roomId) (Str username) (Str userId)
            (Str (if bool_decide (trimmed = "") then "📷 Image" else trimmed))
            imageUrl).

(** * Properties *)

(** Unfolds one handler and runs its store calls on a healthy store. *)
Ltac run_handler Hw :=
  unfold try_catch, bind, ret, kv_get, kv_set, Date_now, log_event; simpl;
  rewrite ?Hw; simpl; rewrite ?Hw; simpl.

Example demo_send :
  fst (send_message (Str "general") (Str "alice") (Str "u1") (Str "hi") Null
         (fresh (λ _, 1000)))
  = RSent (Message.mk "1000-u1" (Str "u1") (Str "alice") (Str "hi") Undefined 1000).
Proof. vm_compute. reflexivity. Qed.

(** ** The handlers on a healthy store *)

Section Healthy.
Context (w : world) (Hw : healthy w).

Lemma kv_get_healthy key :
  kv_get key w = (Val (kv w !! key), log_event (KvGet key) w).
Proof. unfold kv_get. by rewrite Hw. Qed.

Lemma kv_set_healthy key value :
  kv_set key value w
  = (Val tt, World (<[key := value]> (kv w)) (kvlog w ++ [KvSet key value])
                   (clock w) (ticks w) (outage w)).
Proof. unfold kv_set. by rewrite Hw. Qed.

End Healthy.

Lemma healthy_outage w w' : outage w' = outage w → healthy w → healthy w'.
Proof. unfold healthy. intros -> H. exact H. Qed.

Lemma join_room_healthy w r username userId :
  healthy w → r ≠ "" → truthy username = true → truthy userId = true →
  join_room (Str r) username userId w
  = (RSuccess,
     let users' := filter (λ u, entry_userId u ≠ userId) (room_users w r)
                   ++ [EUser (User.mk userId username (clock w (ticks w)))] in
     World (<[usersKey (Str r) := users']> (kv w))
           (kvlog w ++ [KvGet (usersKey (Str r)); KvSet (usersKey (Str r)) users'])
           (clock w) (S (ticks w)) (outage w)).
Proof.
  intros Hw Hr Hn Hu. unfold join_room.
  rewrite Hn, Hu. simpl truthy. rewrite bool_decide_true by done.
  run_handler Hw. by rewrite <- app_assoc.
Qed.

Lemma leave_room_healthy w r userId :
  healthy w → r ≠ "" → truthy userId = true →
  leave_room (Str r) userId w
  = (RSuccess,
     let users' := filter (λ u, entry_userId u ≠ userId) (room_users w r) in
     World (<[usersKey (Str r) := users']> (kv w))
           (kvlog w ++ [KvGet (usersKey (Str r)); KvSet (usersKey (Str r)) users'])
           (clock w) (ticks w) (outage w)).
Proof.
  intros Hw Hr Hu. unfold leave_room.
  rewrite Hu. simpl truthy. rewrite bool_decide_true by done.
  run_handler Hw. by rewrite <- app_assoc.
Qed.

Lemma active_users_healthy w r :
  healthy w →
  active_users r w
  = (let users := room_users w r in
     let active :=
       filter (λ u, joined_after (clock w (ticks w) - 5 * 60 * 1000) u = true) users in
     (RUsers active,
      if bool_decide (length active ≠ length users)
      then World (<[usersKey (Str r) := active]> (kv w))
                 (kvlog w ++ [KvGet (usersKey (Str r)); KvSet (usersKey (Str r)) active])
                 (clock w) (S (ticks w)) (outage w)
      else World (kv w) (kvlog w ++ [KvGet (usersKey (Str r))])
                 (clock w) (S (ticks w)) (outage w))).
Proof.
  intros Hw. unfold active_users. run_handler Hw.
  fold (room_users w r). case_bool_decide; simpl.
  - rewrite length_app. simpl. rewrite Hw. by rewrite <- app_assoc.
  - done.
Qed.

Lemma send_message_healthy w r username userId message imageUrl :
  healthy w → r ≠ "" → truthy username = true → truthy userId = true →
  truthy message = true →
  send_message (Str r) username userId message imageUrl w
  = (let newMessage :=
       Message.mk (pretty (clock w (ticks w)) +:+ "-" +:+ to_str userId)
                  userId username message (or_undefined imageUrl)
                  (clock w (S (ticks w))) in
     let messages' := keep_last_100 (room_messages w r ++ [EMessage newMessage]) in
     (RSent newMessage,
      World (<[messagesKey (Str r) := messages']> (kv w))
            (kvlog w ++ [KvGet (messagesKey (Str r));
                         KvSet (messagesKey (Str r)) messages'])
            (clock w) (S (S (ticks w))) (outage w))).
Proof.
  intros Hw Hr Hn Hu Hm. unfold send_message.
  rewrite Hn, Hu, Hm. simpl truthy. rewrite bool_decide_true by done.
  run_handler Hw. by rewrite <- app_assoc.
Qed.

Lemma get_messages_healthy w r :
  healthy w →
  get_messages r w
  = (RMessages (room_messages w r),
     World (kv w) (kvlog w ++ [KvGet (messagesKey (Str r))])
           (clock w) (ticks w) (outage w)).
Proof. intros Hw. unfold get_messages. by run_handler Hw. Qed.

(** No handler touches the outage schedule or the clock's readings. *)
Lemma handle_env q w :
  outage (handle q w).2 = outage w ∧ clock (handle q w).2 = clock w.
Proof.
  destruct q; simpl;
    unfold join_room, leave_room, active_users, send_message, get_messages,
      try_catch, bind, ret, kv_get, kv_set, Date_now, log_event;
    repeat (simpl; match goal with
                   | |- context [if ?b then _ else _] => destruct b
                   end); simpl; done.
Qed.

Lemma handle_healthy q w : healthy w → healthy (handle q w).2.
Proof. apply healthy_outage, handle_env. Qed.

Lemma serve_healthy qs w : healthy w → healthy (serve qs w).2.
Proof.
  revert w. induction qs as [|q qs IH]; intros w Hw; simpl; [done|].
  pose proof (handle_healthy q w Hw) as H1.
  destruct (handle q w) as [r w1]. simpl in H1.
  specialize (IH w1 H1). destruct (serve qs w1) as [rs w2]. exact IH.
Qed.

(** ** Values *)

Lemma truthy_false v : truthy v = false ↔ missing v.
Proof.
  unfold missing. destruct v as [| |s]; simpl; [tauto..|].
  rewrite bool_decide_eq_false. split.
  - intros H. right; right. f_equal. by apply dec_stable.
  - intros [?|[?|[= ->]]]; [done..|]. auto.
Qed.

Lemma truthy_true v : truthy v = true ↔ ∃ s, v = Str s ∧ s ≠ "".
Proof.
  destruct v as [| |s]; simpl.
  - split; [done|]. by intros (s & ? & _).
  - split; [done|]. by intros (s & ? & _).
  - rewrite bool_decide_eq_true. split; [eauto|]. by intros (s' & [= ->] & ?).
Qed.

Lemma or_undefined_missing v : missing v → or_undefined v = Undefined.
Proof. intros H%truthy_false. unfold or_undefined. by rewrite H. Qed.

Lemma or_undefined_present v : truthy v = true → or_undefined v = v.
Proof. intros H. unfold or_undefined. by rewrite H. Qed.

(** ** Validation *)

Lemma join_room_invalid roomId username userId w :
  truthy roomId && truthy username && truthy userId = false →
  join_room roomId username userId w
  = (RError "Missing required fields" 400, w).
Proof.
  intros H. unfold join_room.
  destruct (truthy roomId), (truthy username), (truthy userId); done.
Qed.

Lemma send_message_invalid roomId username userId message imageUrl w :
  truthy roomId && truthy username && truthy userId && truthy message = false →
  send_message roomId username userId message imageUrl w
  = (RError "Missing required fields" 400, w).
Proof.
  intros H. unfold send_message.
  destruct (truthy roomId), (truthy username), (truthy userId),
    (truthy message); done.
Qed.

(** C9. A join-room or send-message request in which a required property
    ([roomId], [userId], [username], and [message] for a send) is missing or
    empty is answered with the validation error, status 400, and the world
    is left as it was: the store holds what it held and no call to it, read
    or write, has been made. *)
Theorem validation_precedes_store roomId username userId message imageUrl w :
  (missing roomId ∨ missing username ∨ missing userId →
   join_room roomId username userId w
   = (RError "Missing required fields" 400, w))
  ∧ (missing roomId ∨ missing username ∨ missing userId ∨ missing message →
     send_message roomId username userId message imageUrl w
     = (RError "Missing required fields" 400, w)).
Proof.
  rewrite <- !truthy_false. split; intros H.
  - apply join_room_invalid.
    destruct H as [-> | [-> | ->]]; by rewrite ?andb_false_r.
  - apply send_message_invalid.
    destruct H as [-> | [-> | [-> | ->]]]; by rewrite ?andb_false_r.
Qed.

Lemma validation_precedes_store_witness :
  let w := World {["room:general:users" := []]} [] (λ _, 1000) 0 (λ _, true) in
  join_room (Str "general") (Str "") (Str "u1") w
  = (RError "Missing required fields" 400, w)
  ∧ send_message (Str "general") (Str "alice") (Str "u1") Null
      (Str "https://img.example/1.png") w
    = (RError "Missing required fields" 400, w).
Proof.
  intros w.
  destruct (validation_precedes_store (Str "general") (Str "") (Str "u1")
              Null (Str "https://img.example/1.png") w) as [Hjoin _].
  destruct (validation_precedes_store (Str "general") (Str "alice") (Str "u1")
              Null (Str "https://img.example/1.png") w) as [_ Hsend].
  split.
  - apply Hjoin. right; left. right; right. reflexivity.
  - apply Hsend. right; right; right. right; left. reflexivity.
Defined.

(** C5, as the spec states it, fails: a send-message request that carries an
    image address and an empty text is answered with the validation error. *)
Lemma image_without_text_rejected :
  ¬ ∃ m, fst (send_message (Str "general") (Str "alice") (Str "u1") (Str "")
                (Str "https://img.example/1.png") (fresh (λ _, 1000)))
         = RSent m.
Proof. intros [m Hm]. vm_compute in Hm. discriminate. Qed.

(** C5, amended. On a healthy store send-message succeeds exactly when
    [roomId], [username], [userId] and [message] are all present and
    non-empty; [imageUrl] takes no part in the check, so an image address
    does not make up for a missing or empty text. *)
Theorem send_message_accepts_iff roomId username userId message imageUrl w :
  healthy w →
  (∃ m, fst (send_message roomId username userId message imageUrl w) = RSent m)
  ↔ truthy roomId = true ∧ truthy username = true ∧ truthy userId = true
    ∧ truthy message = true.
Proof.
  intros Hw. split.
  - intros [m Hm].
    destruct (truthy roomId && truthy username && truthy userId
              && truthy message) eqn:Hguard.
    + by repeat (apply andb_prop in Hguard as [Hguard ?]).
    + by rewrite send_message_invalid in Hm.
  - intros (Hr & Hn & Hu & Hm).
    apply truthy_true in Hr as (r & -> & Hr).
    rewrite send_message_healthy by done. simpl. eauto.
Qed.

Lemma send_message_accepts_iff_witness :
  ∃ m, fst (send_message (Str "general") (Str "alice") (Str "u1")
              (Str "look") (Str "https://img.example/1.png")
              (fresh (λ _, 1000))) = RSent m.
Proof.
  apply (send_message_accepts_iff (Str "general") (Str "alice") (Str "u1")
           (Str "look") (Str "https://img.example/1.png") (fresh (λ _, 1000))).
  - intros n. reflexivity.
  - vm_compute. tauto.
Defined.

(** ** Truncation to the last 100 *)

Lemma keep_last_100_eq l : keep_last_100 l = last_100 l.
Proof.
  unfold keep_last_100, last_100. case_bool_decide; [done|].
  replace (length l - 100)%nat with 0%nat by lia. done.
Qed.

Lemma last_100_short l : (length l ≤ 100)%nat → last_100 l = l.
Proof.
  intros H. unfold last_100.
  replace (length l - 100)%nat with 0%nat by lia. done.
Qed.

Lemma length_last_100 l : length (last_100 l) = (length l `min` 100)%nat.
Proof. unfold last_100. rewrite length_drop. lia. Qed.

Lemma last_100_app l k : last_100 (last_100 l ++ k) = last_100 (l ++ k).
Proof.
  destruct (decide (length l ≤ 100)%nat) as [Hle|Hgt].
  - by rewrite (last_100_short l).
  - unfold last_100 at 1 3. rewrite !length_app, length_last_100.
    unfold last_100. rewrite !drop_app, drop_drop, length_drop.
    f_equal; f_equal; lia.
Qed.

Lemma last_last_100_snoc l x : last (last_100 (l ++ [x])) = Some x.
Proof.
  unfold last_100. rewrite length_app. simpl.
  rewrite drop_app_le by lia. apply last_snoc.
Qed.

(** ** Sending and listing messages *)

(** C10. For a send-message request on a healthy store, the message that is
    returned, which is also the one stored last in the room's list, has no
    [imageUrl] when the request's [imageUrl] is absent, [null] or the empty
    string, and carries the supplied string otherwise: the message has an
    [imageUrl] if and only if a non-empty string was supplied. *)
Theorem imageUrl_present_iff_supplied r username userId message imageUrl w :
  healthy w → r ≠ "" → truthy username = true → truthy userId = true →
  truthy message = true →
  ∃ m w',
    send_message (Str r) username userId message imageUrl w = (RSent m, w')
    ∧ last (room_messages w' r) = Some (EMessage m)
    ∧ (missing imageUrl → Message.imageUrl m = Undefined)
    ∧ (Message.imageUrl m ≠ Undefined ↔ ∃ s, imageUrl = Str s ∧ s ≠ "")
    ∧ (Message.imageUrl m ≠ Undefined → Message.imageUrl m = imageUrl).
Proof.
  intros Hw Hr Hn Hu Hm. rewrite send_message_healthy by done.
  eexists _, _. split; [reflexivity|]. simpl.
  split; [|split; [|split]].
  - unfold room_messages. simpl. rewrite lookup_insert_eq. simpl.
    rewrite keep_last_100_eq. apply last_last_100_snoc.
  - apply or_undefined_missing.
  - rewrite <- truthy_true. unfold or_undefined.
    destruct (truthy imageUrl) eqn:Hi; [|naive_solver].
    split; [done|]. intros _ ->. done.
  - unfold or_undefined. by destruct (truthy imageUrl).
Qed.

Lemma imageUrl_present_iff_supplied_witness :
  ∃ m w',
    send_message (Str "general") (Str "alice") (Str "u1") (Str "hi") (Str "")
      (fresh (λ _, 1000)) = (RSent m, w')
    ∧ last (room_messages w' "general") = Some (EMessage m)
    ∧ (missing (Str "") → Message.imageUrl m = Undefined)
    ∧ (Message.imageUrl m ≠ Undefined ↔ ∃ s, Str "" = Str s ∧ s ≠ "")
    ∧ (Message.imageUrl m ≠ Undefined → Message.imageUrl m = Str "").
Proof.
  apply (imageUrl_present_iff_supplied "general" (Str "alice") (Str "u1")
           (Str "hi") (Str "") (fresh (λ _, 1000))).
  - intros n. reflexivity.
  - discriminate.
  - reflexivity.
  - reflexivity.
  - reflexivity.
Defined.

(** C4, as the spec states it, fails: the handler reads the clock once for the
    id and once more for the timestamp, so when the clock advances between the
    two reads the timestamp is not the time the id was built from. *)
Lemma id_time_differs_from_timestamp :
  ∃ m, fst (send_message (Str "general") (Str "alice") (Str "u1") (Str "hi") Null
              (fresh (λ n, 1000 + Z.of_nat n))) = RSent m
       ∧ Message.id m = "1000-u1"
       ∧ Message.timestamp m ≠ 1000.
Proof. eexists. vm_compute. split; [reflexivity|]. split; [reflexivity|]. discriminate. Qed.

(** C4, amended. On a healthy store a valid send-message request from the
    sender [u] returns the message it constructed: its id is the first clock
    reading, in decimal, followed by "-" and [u]; its timestamp is the second
    clock reading, which is the time in the id whenever the clock did not
    advance between the two reads; [userId], [username] and [message] are
    the supplied ones.  The room's list read right afterwards ends with that
    very message. *)
Theorem send_message_returns_stored r username u message imageUrl w :
  healthy w → r ≠ "" → truthy username = true → u ≠ "" →
  truthy message = true →
  ∃ m w',
    send_message (Str r) username (Str u) message imageUrl w = (RSent m, w')
    ∧ Message.id m = pretty (clock w (ticks w)) +:+ "-" +:+ u
    ∧ Message.timestamp m = clock w (S (ticks w))
    ∧ (clock w (S (ticks w)) = clock w (ticks w) →
       Message.id m = pretty (Message.timestamp m) +:+ "-" +:+ u)
    ∧ Message.userId m = Str u
    ∧ Message.username m = username
    ∧ Message.message m = message
    ∧ Message.imageUrl m = or_undefined imageUrl
    ∧ ∃ older, fst (get_messages r w') = RMessages (older ++ [EMessage m]).
Proof.
  intros Hw Hr Hn Hu Hm.
  rewrite send_message_healthy by (simpl; try apply bool_decide_eq_true; done).
  eexists _, _. split; [reflexivity|]. simpl.
  repeat (split; [try done|]).
  - by intros ->.
  - rewrite get_messages_healthy by (eapply healthy_outage; [|exact Hw]; done).
    simpl. unfold room_messages at 1. simpl. rewrite lookup_insert_eq. simpl.
    rewrite keep_last_100_eq.
    match goal with
    | |- context [last_100 (?l ++ [?x])] =>
        destruct (proj1 (last_Some _ _) (last_last_100_snoc l x)) as [older ->]
    end.
    by exists older.
Qed.

Lemma send_message_returns_stored_witness :
  let w := fresh (λ _, 1000) in
  ∃ m w',
    send_message (Str "general") (Str "alice") (Str "u1") (Str "hi") Null w
    = (RSent m, w')
    ∧ Message.id m = pretty (clock w (ticks w)) +:+ "-" +:+ "u1"
    ∧ Message.timestamp m = clock w (S (ticks w))
    ∧ (clock w (S (ticks w)) = clock w (ticks w) →
       Message.id m = pretty (Message.timestamp m) +:+ "-" +:+ "u1")
    ∧ Message.userId m = Str "u1"
    ∧ Message.username m = Str "alice"
    ∧ Message.message m = Str "hi"
    ∧ Message.imageUrl m = or_undefined Null
    ∧ ∃ older, fst (get_messages "general" w') = RMessages (older ++ [EMessage m]).
Proof.
  intros w.
  apply (send_message_returns_stored "general" (Str "alice") "u1" (Str "hi")
           Null w).
  - intros n. reflexivity.
  - discriminate.
  - reflexivity.
  - discriminate.
  - reflexivity.
Defined.

(** C8. On a healthy store the messages handler returns the list stored for
    the room exactly as it is stored, whatever its length and order, and the
    empty list when the room's key holds nothing; it does not change the
    store. *)
Theorem get_messages_verbatim r w :
  healthy w →
  (∀ l, kv w !! messagesKey (Str r) = Some l →
        fst (get_messages r w) = RMessages l)
  ∧ (kv w !! messagesKey (Str r) = None →
     fst (get_messages r w) = RMessages [])
  ∧ kv (snd (get_messages r w)) = kv w.
Proof.
  intros Hw. rewrite get_messages_healthy by done. unfold room_messages.
  simpl. split; [|split]; [by intros l -> | by intros -> | done].
Qed.

Lemma get_messages_verbatim_witness :
  let old := EMessage (Message.mk "7-u2" (Str "u2") (Str "bob") (Str "yo")
                         Undefined 7) in
  let new := EMessage (Message.mk "9-u1" (Str "u1") (Str "alice") (Str "hi")
                         Undefined 9) in
  let w := World {["room:general:messages" := [new; old; old]]} []
             (λ _, 1000) 0 (λ _, false) in
  fst (get_messages "general" w) = RMessages [new; old; old]
  ∧ fst (get_messages "random" w) = RMessages [].
Proof.
  intros old new w.
  destruct (get_messages_verbatim "general" w) as (Hsome & _ & _);
    [intros n; reflexivity|].
  destruct (get_messages_verbatim "random" w) as (_ & Hnone & _);
    [intros n; reflexivity|].
  split; [apply Hsome | apply Hnone]; reflexivity.
Defined.

(** ** Presence *)

(** C2. On a healthy store the active-users handler returns the stored list
    filtered by the cutoff [now - 300000] (five minutes in milliseconds),
    where [now] is the clock reading it takes: an entry is kept exactly when
    its [joinedAt] is greater than the cutoff, so an entry whose [joinedAt]
    is older than the cutoff and an entry whose [joinedAt] equals it are
    both excluded. *)
Theorem active_users_cutoff r w :
  healthy w →
  let now := clock w (ticks w) in
  ∃ active,
    fst (active_users r w) = RUsers active
    ∧ active = filter (λ u, joined_after (now - 300000) u = true) (room_users w r)
    ∧ (∀ u t, u ∈ room_users w r → entry_joinedAt u = Some t →
              t < now - 300000 → u ∉ active)
    ∧ (∀ u t, u ∈ room_users w r → entry_joinedAt u = Some t →
              t = now - 300000 → u ∉ active)
    ∧ (∀ u t, u ∈ room_users w r → entry_joinedAt u = Some t →
              now - 300000 < t → u ∈ active).
Proof.
  intros Hw now. rewrite active_users_healthy by done. simpl.
  eexists. split; [reflexivity|]. split; [reflexivity|].
  repeat split; intros u t Hin Ht Hcmp; rewrite list_elem_of_filter;
    unfold joined_after; rewrite Ht, bool_decide_eq_true; fold now;
    [intros [? _]; lia .. | split; [lia | done]].
Qed.

Lemma active_users_cutoff_witness :
  let stale := EUser (User.mk (Str "u1") (Str "alice") 699999) in
  let edge := EUser (User.mk (Str "u2") (Str "bob") 700000) in
  let live := EUser (User.mk (Str "u3") (Str "carol") 700001) in
  let w := World {["room:general:users" := [stale; edge; live]]} []
             (λ _, 1000000) 0 (λ _, false) in
  ∃ active,
    fst (active_users "general" w) = RUsers active
    ∧ (stale ∉ active) ∧ (edge ∉ active) ∧ (live ∈ active).
Proof.
  intros stale edge live w.
  destruct (active_users_cutoff "general" w) as (active & Hrun & _ & Hold & Heq & Hnew);
    [intros n; reflexivity|].
  exists active. split; [exact Hrun|]. split; [|split].
  - apply (Hold stale 699999); [vm_compute; set_solver | reflexivity | vm_compute; reflexivity].
  - apply (Heq edge 700000); [vm_compute; set_solver | reflexivity | vm_compute; reflexivity].
  - apply (Hnew live 700001); [vm_compute; set_solver | reflexivity | vm_compute; reflexivity].
Defined.

Lemma filter_keeps_all {A} (P : A → Prop) `{!∀ x, Decision (P x)} (l : list A) :
  (∀ x, x ∈ l → P x) → filter P l = l.
Proof.
  induction l as [|x l IH]; intros Hall; [done|].
  rewrite filter_cons_True by (apply Hall; left).
  f_equal. apply IH. intros y Hy. apply Hall. by right.
Qed.

Lemma filter_drops_all {A} (P : A → Prop) `{!∀ x, Decision (P x)} (l : list A) :
  (∀ x, x ∈ l → ¬ P x) → filter P l = [].
Proof.
  induction l as [|x l IH]; intros Hnone; [done|].
  rewrite filter_cons_False by (apply Hnone; left).
  apply IH. intros y Hy. apply Hnone. by right.
Qed.

(** C7. On a healthy store the active-users handler reads the room's list
    and returns the filtered list.  It writes the filtered list back exactly
    when its length differs from the length of the loaded list; when no
    entry is stale the only call to the store is the read and the store
    holds what it held. *)
Theorem active_users_writes_iff_evicted r w :
  healthy w →
  let key := usersKey (Str r) in
  let users := room_users w r in
  let active :=
    filter (λ u, joined_after (clock w (ticks w) - 300000) u = true) users in
  let w' := snd (active_users r w) in
  fst (active_users r w) = RUsers active
  ∧ (length active ≠ length users →
     kvlog w' = kvlog w ++ [KvGet key; KvSet key active]
     ∧ kv w' = <[key := active]> (kv w))
  ∧ (length active = length users →
     kvlog w' = kvlog w ++ [KvGet key] ∧ kv w' = kv w)
  ∧ ((∃ k v, KvSet k v ∈ drop (length (kvlog w)) (kvlog w'))
     ↔ length active ≠ length users)
  ∧ ((∀ u, u ∈ users → joined_after (clock w (ticks w) - 300000) u = true) →
     active = users ∧ kvlog w' = kvlog w ++ [KvGet key] ∧ kv w' = kv w).
Proof.
  intros Hw key users active w'. subst w'.
  rewrite active_users_healthy by done. simpl.
  fold users. change (5 * 60 * 1000) with 300000. fold active. fold key.
  split; [done|].
  case_bool_decide as Hlen; simpl.
  - split; [done|]. split; [done|]. split.
    + split; [done|]. intros _. exists key, active.
      rewrite drop_app_length. set_solver.
    + intros Hall. exfalso. apply Hlen. subst active.
      by rewrite filter_keeps_all.
  - split; [done|]. split; [done|]. split.
    + split; [|done]. intros (k & v & Hin).
      rewrite drop_app_length in Hin.
      by apply list_elem_of_singleton in Hin.
    + intros Hall. split; [|done]. subst active. by rewrite filter_keeps_all.
Qed.

Lemma active_users_writes_iff_evicted_witness :
  let live := EUser (User.mk (Str "u3") (Str "carol") 700001) in
  let w := World {["room:general:users" := [live]]} []
             (λ _, 1000000) 0 (λ _, false) in
  fst (active_users "general" w) = RUsers [live]
  ∧ kvlog (snd (active_users "general" w)) = [KvGet "room:general:users"]
  ∧ kv (snd (active_users "general" w)) = kv w.
Proof.
  intros live w.
  destruct (active_users_writes_iff_evicted "general" w)
    as (Hrun & _ & _ & _ & Hfresh); [intros n; reflexivity|].
  destruct Hfresh as (Hall & Hlog & Hkv).
  { intros u Hu. vm_compute in Hu. apply list_elem_of_singleton in Hu as ->.
    vm_compute. reflexivity. }
  rewrite Hrun, Hall. split; [reflexivity|]. split; [exact Hlog | exact Hkv].
Defined.

(** What join-room and leave-room leave in the room's list. *)
Lemma room_users_join w r username userId :
  healthy w → r ≠ "" → truthy username = true → truthy userId = true →
  room_users (snd (join_room (Str r) username userId w)) r
  = filter (λ u, entry_userId u ≠ userId) (room_users w r)
    ++ [EUser (User.mk userId username (clock w (ticks w)))].
Proof.
  intros Hw Hr Hn Hu. rewrite join_room_healthy by done.
  unfold room_users at 1. simpl. by rewrite lookup_insert_eq.
Qed.

Lemma room_users_leave w r userId :
  healthy w → r ≠ "" → truthy userId = true →
  room_users (snd (leave_room (Str r) userId w)) r
  = filter (λ u, entry_userId u ≠ userId) (room_users w r).
Proof.
  intros Hw Hr Hu. rewrite leave_room_healthy by done.
  unfold room_users at 1. simpl. by rewrite lookup_insert_eq.
Qed.

Lemma no_entry_after_removal userId (P : entry → Prop)
    `{!∀ x, Decision (P x)} (l : list entry) :
  filter (λ e, entry_userId e = userId)
    (filter P (filter (λ u, entry_userId u ≠ userId) l)) = [].
Proof.
  apply filter_drops_all. intros e He.
  apply list_elem_of_filter in He as [_ He].
  by apply list_elem_of_filter in He as [He _].
Qed.

(** C3. After any run of requests on a healthy store, a join-room request
    for the user [userId] leaves exactly one entry for [userId] in the room's
    list: the entries that were there for [userId] are removed and a new one
    is appended, with [joinedAt] the clock reading of this request.  So after
    any run of join-room requests for the same room and user, active-users
    called while that reading is still within the five minutes returns
    exactly one entry for the user, the one of the last join-room. *)
Theorem join_room_keeps_one_entry qs r username userId w :
  healthy w → r ≠ "" → truthy username = true → truthy userId = true →
  let w1 := snd (serve qs w) in
  let t := clock w1 (ticks w1) in
  let w2 := snd (join_room (Str r) username userId w1) in
  let mine := filter (λ e, entry_userId e = userId) in
  fst (join_room (Str r) username userId w1) = RSuccess
  ∧ room_users w2 r
    = filter (λ u, entry_userId u ≠ userId) (room_users w1 r)
      ++ [EUser (User.mk userId username t)]
  ∧ mine (room_users w2 r) = [EUser (User.mk userId username t)]
  ∧ (clock w2 (ticks w2) - 300000 < t →
     ∃ active, fst (active_users r w2) = RUsers active
               ∧ mine active = [EUser (User.mk userId username t)]).
Proof.
  intros Hw Hr Hn Hu w1 t w2 mine.
  assert (healthy w1) as Hw1 by by apply serve_healthy.
  assert (healthy w2) as Hw2 by by apply (handle_healthy (JoinRoom _ _ _)).
  assert (mine [EUser (User.mk userId username t)]
          = [EUser (User.mk userId username t)]) as Hnew.
  { unfold mine. by rewrite filter_cons_True. }
  pose proof (room_users_join w1 r username userId Hw1 Hr Hn Hu) as Hlist.
  fold w2 t in Hlist.
  split; [by rewrite join_room_healthy|]. split; [exact Hlist|]. split.
  - rewrite Hlist. unfold mine. rewrite filter_app. fold mine. rewrite Hnew.
    unfold mine.
    rewrite (filter_drops_all _ (filter _ _)); [done|].
    intros e He. by apply list_elem_of_filter in He as [He _].
  - intros Hwindow. rewrite active_users_healthy by done. simpl.
    eexists. split; [reflexivity|].
    rewrite Hlist, filter_app.
    rewrite (filter_cons_True _ (EUser _)).
    2:{ unfold joined_after. simpl. by apply bool_decide_eq_true. }
    rewrite filter_nil. unfold mine at 1. rewrite filter_app. fold mine.
    rewrite Hnew. unfold mine. by rewrite no_entry_after_removal.
Qed.

Lemma join_room_keeps_one_entry_witness :
  let w := fresh (λ n, 1000 + Z.of_nat n) in
  let qs := [JoinRoom (Str "general") (Str "alice") (Str "u1");
             JoinRoom (Str "general") (Str "bob") (Str "u2")] in
  let w1 := snd (serve qs w) in
  let w2 := snd (join_room (Str "general") (Str "alice") (Str "u1") w1) in
  room_users w2 "general"
  = [EUser (User.mk (Str "u2") (Str "bob") 1001);
     EUser (User.mk (Str "u1") (Str "alice") 1002)]
  ∧ ∃ active, fst (active_users "general" w2) = RUsers active
      ∧ filter (λ e, entry_userId e = Str "u1") active
        = [EUser (User.mk (Str "u1") (Str "alice") 1002)].
Proof.
  intros w qs w1 w2.
  destruct (join_room_keeps_one_entry qs "general" (Str "alice") (Str "u1") w)
    as (_ & Hlist & _ & Hactive).
  - intros n. reflexivity.
  - discriminate.
  - reflexivity.
  - reflexivity.
  - split.
    + fold w1 w2 in Hlist. rewrite Hlist. vm_compute. reflexivity.
    + apply Hactive. vm_compute. reflexivity.
Defined.

(** C6. On a healthy store, after any run of requests, leave-room for a user
    succeeds whether or not the room's list has an entry for that user; when
    it has none the list is left as it was, and leaving a second time changes
    nothing more.  The list active-users returns right after a leave-room has
    no entry for that user. *)
Theorem leave_room_idempotent qs r userId w :
  healthy w → r ≠ "" → truthy userId = true →
  let w1 := snd (serve qs w) in
  let w2 := snd (leave_room (Str r) userId w1) in
  let w3 := snd (leave_room (Str r) userId w2) in
  fst (leave_room (Str r) userId w1) = RSuccess
  ∧ ((∀ e, e ∈ room_users w1 r → entry_userId e ≠ userId) →
     room_users w2 r = room_users w1 r)
  ∧ fst (leave_room (Str r) userId w2) = RSuccess
  ∧ room_users w3 r = room_users w2 r
  ∧ ∃ active, fst (active_users r w2) = RUsers active
              ∧ ∀ e, e ∈ active → entry_userId e ≠ userId.
Proof.
  intros Hw Hr Hu w1 w2 w3.
  assert (healthy w1) as Hw1 by by apply serve_healthy.
  assert (healthy w2) as Hw2 by by apply (handle_healthy (LeaveRoom _ _)).
  pose proof (room_users_leave w1 r userId Hw1 Hr Hu) as Hlist.
  pose proof (room_users_leave w2 r userId Hw2 Hr Hu) as Hlist'.
  fold w2 in Hlist. fold w3 w2 in Hlist'.
  split; [by rewrite leave_room_healthy|]. split; [|split; [|split]].
  - intros Habsent. rewrite Hlist. by apply filter_keeps_all.
  - by rewrite leave_room_healthy.
  - rewrite Hlist'. apply filter_keeps_all. intros e He.
    rewrite Hlist in He. by apply list_elem_of_filter in He as [He _].
  - rewrite active_users_healthy by done. simpl.
    eexists. split; [reflexivity|]. intros e He.
    apply list_elem_of_filter in He as [_ He]. rewrite Hlist in He.
    by apply list_elem_of_filter in He as [He _].
Qed.

Lemma leave_room_idempotent_witness :
  let w := fresh (λ n, 1000 + Z.of_nat n) in
  let qs := [JoinRoom (Str "general") (Str "alice") (Str "u1");
             JoinRoom (Str "general") (Str "bob") (Str "u2")] in
  let w1 := snd (serve qs w) in
  let w2 := snd (leave_room (Str "general") (Str "u3") w1) in
  fst (leave_room (Str "general") (Str "u3") w1) = RSuccess
  ∧ room_users w2 "general" = room_users w1 "general"
  ∧ ∃ active, fst (active_users "general" w2) = RUsers active
              ∧ ∀ e, e ∈ active → entry_userId e ≠ Str "u3".
Proof.
  intros w qs w1 w2.
  destruct (leave_room_idempotent qs "general" (Str "u3") w)
    as (Hok & Hsame & _ & _ & Hactive).
  - intros n. reflexivity.
  - discriminate.
  - reflexivity.
  - split; [exact Hok|]. split; [|exact Hactive].
    apply Hsame. intros e He. vm_compute in He.
    apply elem_of_cons in He as [-> | He]; [discriminate|].
    apply list_elem_of_singleton in He as ->. discriminate.
Defined.

(** ** Retention *)

(** A run of well-formed sends to one room: every request is answered with
    the message built for it, and the room's list ends up as the last 100 of
    what it held followed by those messages. *)
Lemma serve_sends r qs : ∀ w,
  healthy w → r ≠ "" → forallb (is_send_to r) qs = true →
  (length (room_messages w r) ≤ 100)%nat →
  ∃ sent w',
    serve qs w = (RSent <$> sent, w')
    ∧ length sent = length qs
    ∧ healthy w'
    ∧ room_messages w' r
      = last_100 (room_messages w r ++ (EMessage <$> sent)).
Proof.
  induction qs as [|q qs IH]; intros w Hw Hr Hqs Hlen.
  - exists [], w. simpl. rewrite app_nil_r, last_100_short by done. done.
  - simpl in Hqs. apply andb_prop in Hqs as [Hq Hqs].
    destruct q as [| | |roomId username userId message imageUrl|]; try done.
    simpl in Hq.
    repeat (apply andb_prop in Hq as [Hq ?]).
    apply bool_decide_eq_true in Hq as ->.
    pose proof (send_message_healthy w r username userId message imageUrl
                  Hw Hr ltac:(done) ltac:(done) ltac:(done)) as Hsend.
    simpl in Hsend.
    set (m := Message.mk _ _ _ _ _ _) in Hsend.
    set (w1 := World _ _ _ _ _) in Hsend.
    assert (healthy w1) as Hw1 by (by apply (healthy_outage w)).
    assert (room_messages w1 r = last_100 (room_messages w r ++ [EMessage m]))
      as Hroom.
    { unfold room_messages at 1. subst w1. simpl.
      by rewrite lookup_insert_eq, keep_last_100_eq. }
    destruct (IH w1 Hw1 Hr Hqs) as (sent & w' & Hrun & Hcount & Hw' & Hrest).
    { rewrite Hroom, length_last_100. lia. }
    exists (m :: sent), w'. simpl. rewrite Hsend, Hrun.
    split; [done|]. split; [by rewrite Hcount|]. split; [done|].
    rewrite Hrest, Hroom, last_100_app, <- app_assoc. done.
Qed.

Lemma sent_message_replies (sent : list Message.t) :
  omap sent_message (RSent <$> sent) = sent.
Proof. induction sent as [|m sent IH]; [done|]. cbn. f_equal. exact IH. Qed.

(** C1. More than 100 well-formed send-message requests, served one after
    the other on a healthy store for a room whose list is empty: the messages
    handler then returns exactly the messages of the last 100 requests, in
    the order they were sent.  The list has 100 elements and starts with the
    message of request number N-100 (counting from 0; the second request
    when N = 101); the messages of the first N-100 requests have been
    dropped, so none of them is in the list when the messages sent are
    pairwise distinct. *)
Theorem last_100_messages_listed r qs w :
  healthy w → r ≠ "" → room_messages w r = [] →
  forallb (is_send_to r) qs = true → (100 < length qs)%nat →
  let N := length qs in
  ∃ sent w' listed,
    serve qs w = (RSent <$> sent, w')
    ∧ length sent = N
    ∧ fst (get_messages r w') = RMessages listed
    ∧ listed = EMessage <$> drop (N - 100) sent
    ∧ length listed = 100%nat
    ∧ head listed = EMessage <$> sent !! (N - 100)%nat
    ∧ (NoDup sent → ∀ m, m ∈ take (N - 100) sent → EMessage m ∉ listed).
Proof.
  intros Hw Hr Hempty Hqs HN N.
  destruct (serve_sends r qs w Hw Hr Hqs) as (sent & w' & Hrun & Hcount & Hw' & Hroom).
  { rewrite Hempty. simpl. lia. }
  exists sent, w', (EMessage <$> drop (N - 100) sent).
  split; [done|]. split; [done|]. split; [|split; [done|split; [|split]]].
  - rewrite get_messages_healthy by done. simpl. rewrite Hroom, Hempty. simpl.
    unfold last_100. by rewrite length_fmap, fmap_drop, Hcount.
  - rewrite length_fmap, length_drop. lia.
  - rewrite head_lookup, list_lookup_fmap, lookup_drop. do 2 f_equal. lia.
  - intros Hdistinct m Hearly Hlisted.
    apply list_elem_of_fmap in Hlisted as (m' & [= <-] & Hlate).
    rewrite <- (take_drop (N - 100) sent) in Hdistinct.
    apply NoDup_app in Hdistinct as (_ & Hdisjoint & _).
    by apply (Hdisjoint m).
Qed.

Lemma last_100_messages_listed_witness :
  let w := fresh (λ n, 5000 + Z.of_nat n) in
  let qs := SendMessage (Str "general") (Str "alice") (Str "u1") (Str "first") Null
            :: SendMessage (Str "general") (Str "bob") (Str "u2") (Str "second") Null
            :: replicate 99 (SendMessage (Str "general") (Str "alice") (Str "u1")
                               (Str "more") Null) in
  ∃ sent w' listed,
    serve qs w = (RSent <$> sent, w')
    ∧ length sent = 101%nat
    ∧ fst (get_messages "general" w') = RMessages listed
    ∧ length listed = 100%nat
    ∧ head listed
      = Some (EMessage (Message.mk "5002-u2" (Str "u2") (Str "bob")
                          (Str "second") Undefined 5003))
    ∧ EMessage (Message.mk "5000-u1" (Str "u1") (Str "alice")
                  (Str "first") Undefined 5001) ∉ listed.
Proof.
  intros w qs.
  destruct (last_100_messages_listed "general" qs w)
    as (sent & w' & listed & Hrun & Hcount & Hget & Hlisted & Hlen & Hhead & Habsent).
  - intros n. reflexivity.
  - discriminate.
  - vm_compute. reflexivity.
  - vm_compute. reflexivity.
  - vm_compute. lia.
  - exists sent, w', listed.
    assert (sent = omap sent_message (fst (serve qs w))) as Hsent
      by (rewrite Hrun; symmetry; apply sent_message_replies).
    vm_compute in Hsent.
    split; [exact Hrun|]. split; [exact Hcount|]. split; [exact Hget|].
    split; [exact Hlen|]. split.
    + rewrite Hhead, Hsent. vm_compute. reflexivity.
    + apply Habsent.
      * rewrite Hsent. apply (bool_decide_unpack _). vm_compute. exact I.
      * rewrite Hsent. vm_compute. left.
Defined.

(** * The handlers in any world *)

(** Unfolds a handler and splits on every test it makes. *)
Ltac split_handler :=
  unfold join_room, leave_room, active_users, send_message, get_messages,
    try_catch, bind, ret, kv_get, kv_set, Date_now, log_event;
  repeat (simpl; match goal with
                 | |- context [if ?b then _ else _] => destruct b eqn:?
                 end); simpl.

(** What a handler can do to the store: nothing, or replace the value of its
    one key. *)
Lemma join_room_store roomId username userId w :
  let w' := snd (join_room roomId username userId w) in
  kv w' = kv w
  ∨ ∃ t, kv w' = <[usersKey roomId :=
                    filter (λ u, entry_userId u ≠ userId)
                      (or_empty (kv w !! usersKey roomId))
                    ++ [EUser (User.mk userId username t)]]> (kv w).
Proof. split_handler; eauto. Qed.

Lemma leave_room_store roomId userId w :
  let w' := snd (leave_room roomId userId w) in
  kv w' = kv w
  ∨ kv w' = <[usersKey roomId :=
               filter (λ u, entry_userId u ≠ userId)
                 (or_empty (kv w !! usersKey roomId))]> (kv w).
Proof. split_handler; eauto. Qed.

Lemma active_users_store r w :
  let w' := snd (active_users r w) in
  kv w' = kv w
  ∨ ∃ t, kv w' = <[usersKey (Str r) :=
                    filter (λ u, joined_after t u = true)
                      (or_empty (kv w !! usersKey (Str r)))]> (kv w).
Proof. split_handler; eauto. Qed.

Lemma send_message_store roomId username userId message imageUrl w :
  let w' := snd (send_message roomId username userId message imageUrl w) in
  kv w' = kv w
  ∨ ∃ m, kv w' = <[messagesKey roomId :=
                    keep_last_100 (or_empty (kv w !! messagesKey roomId)
                                   ++ [EMessage m])]> (kv w).
Proof. split_handler; eauto. Qed.

Lemma get_messages_store r w : kv (snd (get_messages r w)) = kv w.
Proof. split_handler; eauto. Qed.

Lemma handle_other_key q w key :
  key ≠ request_key q → kv (snd (handle q w)) !! key = kv w !! key.
Proof.
  intros Hkey. destruct q; simpl in *.
  - destruct (join_room_store roomId username userId w) as [-> | [t ->]];
      [done | by rewrite lookup_insert_ne].
  - destruct (leave_room_store roomId userId w) as [-> | ->];
      [done | by rewrite lookup_insert_ne].
  - destruct (active_users_store roomId w) as [-> | [t ->]];
      [done | by rewrite lookup_insert_ne].
  - destruct (send_message_store roomId username userId message imageUrl w)
      as [-> | [m ->]]; [done | by rewrite lookup_insert_ne].
  - by rewrite get_messages_store.
Qed.

(** ** Keys *)

Lemma list_of_string_app s t :
  String.list_ascii_of_string (s +:+ t)
  = String.list_ascii_of_string s ++ String.list_ascii_of_string t.
Proof. induction s as [|c s IH]; simpl; [done|]. by rewrite IH. Qed.

Lemma list_of_string_inj s t :
  String.list_ascii_of_string s = String.list_ascii_of_string t → s = t.
Proof.
  intros H. rewrite <- (String.string_of_list_ascii_of_string s),
    <- (String.string_of_list_ascii_of_string t). by rewrite H.
Qed.

(** A common suffix cancels. *)
Lemma string_app_inv_tail s1 s2 t : s1 +:+ t = s2 +:+ t → s1 = s2.
Proof.
  intros H. apply list_of_string_inj.
  apply (f_equal String.list_ascii_of_string) in H.
  rewrite !list_of_string_app in H. by apply app_inv_tail in H.
Qed.

Lemma usersKey_inj a b : usersKey (Str a) = usersKey (Str b) → a = b.
Proof.
  unfold usersKey. simpl. intros H. apply (inj (String.app "room:")) in H.
  by apply string_app_inv_tail in H.
Qed.

Lemma messagesKey_inj a b : messagesKey (Str a) = messagesKey (Str b) → a = b.
Proof.
  unfold messagesKey. simpl. intros H. apply (inj (String.app "room:")) in H.
  by apply string_app_inv_tail in H.
Qed.

(** A key of users ends in "rs", a key of messages in "es". *)
Lemma usersKey_messagesKey a b : usersKey a ≠ messagesKey b.
Proof.
  unfold usersKey, messagesKey. intros H.
  apply (inj (String.app "room:")) in H.
  apply (f_equal String.list_ascii_of_string) in H.
  rewrite !list_of_string_app in H.
  change (String.list_ascii_of_string ":users")
    with (String.list_ascii_of_string ":use" ++ String.list_ascii_of_string "rs") in H.
  change (String.list_ascii_of_string ":messages")
    with (String.list_ascii_of_string ":messag" ++ String.list_ascii_of_string "es") in H.
  rewrite !app_assoc in H. apply app_inj_2 in H as [_ H]; [|done].
  discriminate.
Qed.

(** X4. The keys of the store never collide: whatever the room ids, a key of
    users is not a key of messages, and two rooms with different ids have
    different keys of users and different keys of messages. *)
Theorem room_keys_distinct a b :
  usersKey (Str a) ≠ messagesKey (Str b)
  ∧ (a ≠ b → usersKey (Str a) ≠ usersKey (Str b))
  ∧ (a ≠ b → messagesKey (Str a) ≠ messagesKey (Str b)).
Proof.
  split; [apply usersKey_messagesKey|].
  split; intros Hab Heq; apply Hab.
  - by apply usersKey_inj.
  - by apply messagesKey_inj.
Qed.

Lemma room_keys_distinct_witness :
  usersKey (Str "a:messages") ≠ messagesKey (Str "a")
  ∧ usersKey (Str "a") ≠ usersKey (Str "a:users")
  ∧ messagesKey (Str "a") ≠ messagesKey (Str "a:users").
Proof.
  split; [apply (room_keys_distinct "a:messages" "a")|].
  split; apply (room_keys_distinct "a" "a:users"); discriminate.
Defined.

(** ** Frame *)

Lemma handle_room_users q w r :
  request_key q ≠ usersKey (Str r) →
  room_users (snd (handle q w)) r = room_users w r.
Proof. intros H. unfold room_users. by rewrite handle_other_key. Qed.

Lemma handle_room_messages q w r :
  request_key q ≠ messagesKey (Str r) →
  room_messages (snd (handle q w)) r = room_messages w r.
Proof. intros H. unfold room_messages. by rewrite handle_other_key. Qed.


(** X5. Presence and messages do not interfere, in any world: join-room,
    leave-room and active-users leave the message list of every room as it
    was, and send-message and messages leave the list of users of every room
    as it was. *)
Theorem presence_and_messages_separate q w r :
  match q with
  | JoinRoom _ _ _ | LeaveRoom _ _ | ActiveUsers _ =>
      room_messages (snd (handle q w)) r = room_messages w r
  | SendMessage _ _ _ _ _ | GetMessages _ =>
      room_users (snd (handle q w)) r = room_users w r
  end.
Proof.
  assert (∀ a b, messagesKey a ≠ usersKey b) as Hsym.
  { intros a b H. symmetry in H. by apply usersKey_messagesKey in H. }
  destruct q as [a ? ?|a ?|a|a ? ? ? ?|a].
  1-3: apply handle_room_messages; cbn [request_key];
       apply usersKey_messagesKey.
  all: apply handle_room_users; cbn [request_key]; apply Hsym.
Qed.

(** X6. A request that names another room changes neither list of the room
    [r], in any world. *)
Theorem other_rooms_untouched q w r :
  request_room q ≠ Str r →
  room_users (snd (handle q w)) r = room_users w r
  ∧ room_messages (snd (handle q w)) r = room_messages w r.
Proof.
  intros Hroom.
  assert (kv (snd (handle q w)) = kv w
          ∨ ∃ r', request_room q = Str r') as [Hsame | [r' Hr']].
  { destruct (request_room q) as [| |r'] eqn:Hq; [| |right; by exists r'];
      left; destruct q; cbn [request_room] in Hq; subst; try done;
      reflexivity. }
  { unfold room_users, room_messages. by rewrite Hsame. }
  assert (r' ≠ r) as Hne by congruence.
  assert (∀ a b, messagesKey a ≠ usersKey b) as Hsym.
  { intros a b H. symmetry in H. by apply usersKey_messagesKey in H. }
  split; [apply handle_room_users | apply handle_room_messages];
    destruct q; cbn [request_key request_room] in *; simplify_eq;
    first [ by intros ?%usersKey_inj
          | by intros ?%messagesKey_inj
          | apply usersKey_messagesKey
          | apply Hsym ].
Qed.

Lemma other_rooms_untouched_witness :
  let w := World {["room:random:users" :=
                     [EUser (User.mk (Str "u2") (Str "bob") 10)]]} []
             (λ _, 1000) 0 (λ _, false) in
  let q := JoinRoom (Str "general") (Str "alice") (Str "u2") in
  room_users (snd (handle q w)) "random" = room_users w "random"
  ∧ room_messages (snd (handle q w)) "random" = room_messages w "random".
Proof.
  intros w q. apply (other_rooms_untouched q w "random"). discriminate.
Defined.

(** ** Errors *)

Lemma leave_room_invalid roomId userId w :
  truthy roomId && truthy userId = false →
  leave_room roomId userId w = (RError "Missing required fields" 400, w).
Proof.
  intros H. unfold leave_room.
  destruct (truthy roomId), (truthy userId); done.
Qed.

(** X1. A leave-room request whose [roomId] or [userId] is missing or empty
    is answered with the validation error, status 400, before any call to
    the store: the world is left as it was. *)
Theorem leave_room_validation roomId userId w :
  missing roomId ∨ missing userId →
  leave_room roomId userId w = (RError "Missing required fields" 400, w).
Proof.
  rewrite <- !truthy_false. intros H. apply leave_room_invalid.
  destruct H as [-> | ->]; by rewrite ?andb_false_r.
Qed.

Lemma leave_room_validation_witness :
  let w := World {["room:general:users" :=
                     [EUser (User.mk (Str "u1") (Str "alice") 10)]]} []
             (λ _, 1000) 0 (λ _, false) in
  leave_room (Str "general") Null w = (RError "Missing required fields" 400, w).
Proof.
  intros w. apply (leave_room_validation (Str "general") Null w).
  right. right; left. reflexivity.
Defined.








(** ** Invariants of the two lists *)

Lemma NoDup_fmap_filter {A B} (f : A → B) (P : A → Prop)
    `{!∀ x, Decision (P x)} (l : list A) :
  NoDup (f <$> l) → NoDup (f <$> filter P l).
Proof.
  induction l as [|x l IH]; [done|]. rewrite fmap_cons, NoDup_cons.
  intros [Hx Hl]. rewrite filter_cons.
  destruct (decide (P x)); [|by apply IH].
  rewrite fmap_cons, NoDup_cons. split; [|by apply IH].
  intros Hin. apply Hx.
  apply list_elem_of_fmap in Hin as (y & -> & Hy).
  apply list_elem_of_filter in Hy as [_ Hy].
  by apply list_elem_of_fmap_2.
Qed.

Lemma filter_length_eq {A} (P : A → Prop) `{!∀ x, Decision (P x)} (l : list A) :
  length (filter P l) = length l → filter P l = l.
Proof.
  induction l as [|x l IH]; [done|]. rewrite filter_cons.
  destruct (decide (P x)); simpl.
  - intros [= Hlen]. f_equal. by apply IH.
  - intros Hlen. pose proof (length_filter P l). lia.
Qed.

(** One request never makes a room's message list longer than 100, unless it
    was longer already. *)
Lemma handle_messages_bound q w r :
  (length (room_messages w r) ≤ 100)%nat →
  (length (room_messages (snd (handle q w)) r) ≤ 100)%nat.
Proof.
  intros Hlen.
  destruct (decide (request_key q = messagesKey (Str r))) as [Hkey|Hkey];
    [|by rewrite handle_room_messages].
  destruct q as [a ? ?|a ?|a|roomId username userId message imageUrl|a];
    cbn [request_key] in Hkey;
    try (by apply usersKey_messagesKey in Hkey).
  - simpl. unfold room_messages.
    destruct (send_message_store roomId username userId message imageUrl w)
      as [-> | [m ->]]; [done|].
    rewrite Hkey, lookup_insert_eq. simpl.
    rewrite keep_last_100_eq, length_last_100. lia.
  - simpl. unfold room_messages. by rewrite get_messages_store.
Qed.

(** X7. The cap is an invariant of the server: if a room's message list has
    at most 100 entries, it has at most 100 after any run of requests,
    whatever they are and whether or not calls to the store fail. *)
Theorem messages_never_exceed_cap qs w r :
  (length (room_messages w r) ≤ 100)%nat →
  (length (room_messages (snd (serve qs w)) r) ≤ 100)%nat.
Proof.
  revert w. induction qs as [|q qs IH]; intros w Hlen; simpl; [done|].
  pose proof (handle_messages_bound q w r Hlen) as H1.
  destruct (handle q w) as [rp w1]. simpl in H1.
  specialize (IH w1 H1). by destruct (serve qs w1).
Qed.

Lemma messages_never_exceed_cap_witness :
  let send := SendMessage (Str "general") (Str "alice") (Str "u1") (Str "hi") Null in
  let w := World ∅ [] (λ n, Z.of_nat n) 0 (λ n, bool_decide (n = 7%nat)) in
  (length (room_messages (snd (serve (replicate 120 send) w)) "general")
   ≤ 100)%nat.
Proof.
  intros send w. apply (messages_never_exceed_cap (replicate 120 send) w).
  vm_compute. lia.
Defined.

(** One request keeps the user ids of a room's list pairwise distinct. *)
Lemma handle_users_distinct q w r :
  NoDup (entry_userId <$> room_users w r) →
  NoDup (entry_userId <$> room_users (snd (handle q w)) r).
Proof.
  intros Hnd.
  assert (∀ a b, messagesKey a ≠ usersKey b) as Hsym.
  { intros a b H. symmetry in H. by apply usersKey_messagesKey in H. }
  destruct (decide (request_key q = usersKey (Str r))) as [Hkey|Hkey];
    [|by rewrite handle_room_users].
  destruct q as [roomId username userId|roomId userId|a|a ? ? ? ?|a];
    cbn [request_key] in Hkey; try (by apply Hsym in Hkey);
    cbn [handle]; unfold room_users in *.
  - destruct (join_room_store roomId username userId w) as [-> | [t ->]];
      [done|].
    rewrite Hkey, lookup_insert_eq. cbn [or_empty].
    rewrite fmap_app. apply NoDup_app. split; [by apply NoDup_fmap_filter|].
    split; [|apply NoDup_singleton].
    intros x Hx. simpl. rewrite list_elem_of_singleton. intros ->.
    apply list_elem_of_fmap in Hx as (y & Hy & Hin).
    by apply list_elem_of_filter in Hin as [Hne _].
  - destruct (leave_room_store roomId userId w) as [-> | ->]; [done|].
    rewrite Hkey, lookup_insert_eq. cbn [or_empty].
    by apply NoDup_fmap_filter.
  - destruct (active_users_store a w) as [-> | [t ->]]; [done|].
    rewrite Hkey, lookup_insert_eq. cbn [or_empty].
    by apply NoDup_fmap_filter.
Qed.

(** X8. At most one entry per user is an invariant of the server: if the
    user ids in a room's list are pairwise distinct, they are so after any
    run of requests, whatever they are and whether or not calls to the store
    fail.  A store that starts empty therefore never holds two entries for
    one user in one room. *)
Theorem one_entry_per_user_invariant qs w r :
  NoDup (entry_userId <$> room_users w r) →
  NoDup (entry_userId <$> room_users (snd (serve qs w)) r).
Proof.
  revert w. induction qs as [|q qs IH]; intros w Hnd; simpl; [done|].
  pose proof (handle_users_distinct q w r Hnd) as H1.
  destruct (handle q w) as [rp w1]. simpl in H1.
  specialize (IH w1 H1). by destruct (serve qs w1).
Qed.

Lemma one_entry_per_user_invariant_witness :
  let qs := [JoinRoom (Str "general") (Str "alice") (Str "u1");
             JoinRoom (Str "general") (Str "bob") (Str "u2");
             JoinRoom (Str "general") (Str "alice again") (Str "u1");
             ActiveUsers "general";
             LeaveRoom (Str "general") (Str "u2");
             JoinRoom (Str "general") (Str "alice") (Str "u1")] in
  NoDup (entry_userId <$>
           room_users (snd (serve qs (fresh (λ n, Z.of_nat n)))) "general").
Proof.
  intros qs.
  apply (one_entry_per_user_invariant qs (fresh (λ n, Z.of_nat n)) "general").
  vm_compute. constructor.
Defined.

(** ** The cap at its edge *)

(** X9. A valid send on a healthy store appends without loss while the room
    holds fewer than 100 messages; from 100 on it keeps the newest 99 of the
    stored messages, in order, followed by the new one, which makes exactly
    100. *)
Theorem send_message_at_the_cap r username userId message imageUrl w :
  healthy w → r ≠ "" → truthy username = true → truthy userId = true →
  truthy message = true →
  let old := room_messages w r in
  ∃ m w',
    send_message (Str r) username userId message imageUrl w = (RSent m, w')
    ∧ ((length old < 100)%nat → room_messages w' r = old ++ [EMessage m])
    ∧ ((100 ≤ length old)%nat →
       room_messages w' r = drop (length old - 99) old ++ [EMessage m]
       ∧ length (room_messages w' r) = 100%nat).
Proof.
  intros Hw Hr Hn Hu Hm old. rewrite send_message_healthy by done.
  cbv zeta. fold old.
  set (m := Message.mk _ _ _ _ _ _). set (w' := World _ _ _ _ _).
  exists m, w'. split; [reflexivity|].
  assert (room_messages w' r = last_100 (old ++ [EMessage m])) as ->.
  { unfold room_messages at 1. subst w'. cbn [kv].
    by rewrite lookup_insert_eq, keep_last_100_eq. }
  split; intros Hlen.
  - apply last_100_short. rewrite length_app. simpl. lia.
  - unfold last_100. rewrite length_app. simpl.
    rewrite drop_app_le by lia.
    replace (length old + 1 - 100)%nat with (length old - 99)%nat by lia.
    split; [done|]. rewrite length_app, length_drop. simpl. lia.
Qed.

Lemma send_message_at_the_cap_witness :
  let stored n := EMessage (Message.mk (pretty n) (Str "u2") (Str "bob")
                              (Str "old") Undefined n) in
  let old := stored <$> seqZ 0 100 in
  let w := World {["room:general:messages" := old]} [] (λ _, 1000) 0
             (λ _, false) in
  ∃ m w',
    send_message (Str "general") (Str "alice") (Str "u1") (Str "hi") Null w
    = (RSent m, w')
    ∧ room_messages w' "general" = drop 1 old ++ [EMessage m]
    ∧ length (room_messages w' "general") = 100%nat.
Proof.
  intros stored old w.
  destruct (send_message_at_the_cap "general" (Str "alice") (Str "u1")
              (Str "hi") Null w) as (m & w' & Hsend & _ & Hfull).
  - intros n. reflexivity.
  - discriminate.
  - reflexivity.
  - reflexivity.
  - reflexivity.
  - exists m, w'. split; [exact Hsend|]. apply Hfull. vm_compute. lia.
Defined.

(** ** Presence: eviction and round trips *)

(** X10. On a healthy store, what active-users returns is what the store
    holds for the room afterwards, whether or not a write was needed: the
    entries of the loaded list that are still fresh, in their stored
    order. *)
Theorem active_users_reply_is_stored r w :
  healthy w →
  ∃ active w',
    active_users r w = (RUsers active, w')
    ∧ room_users w' r = active
    ∧ active `sublist_of` room_users w r
    ∧ Forall (λ u, ∃ t, entry_joinedAt u = Some t
                        ∧ clock w (ticks w) - 300000 < t) active.
Proof.
  intros Hw. rewrite active_users_healthy by done. cbv zeta.
  eexists _, _. split; [reflexivity|].
  change (5 * 60 * 1000) with 300000.
  split; [|split].
  - case_bool_decide as Hlen; unfold room_users at 1; simpl.
    + by rewrite lookup_insert_eq.
    + fold (room_users w r). symmetry. by apply filter_length_eq.
  - apply sublist_filter.
  - apply Forall_forall. intros u Hu.
    apply list_elem_of_filter in Hu as [Hu _]. unfold joined_after in Hu.
    destruct (entry_joinedAt u) as [t|]; [|done].
    apply bool_decide_eq_true in Hu. eauto.
Qed.

Lemma active_users_reply_is_stored_witness :
  let stale := EUser (User.mk (Str "u1") (Str "alice") 10) in
  let live := EUser (User.mk (Str "u2") (Str "bob") 900000) in
  let w := World {["room:general:users" := [stale; live]]} []
             (λ _, 1000000) 0 (λ _, false) in
  ∃ active w',
    active_users "general" w = (RUsers active, w')
    ∧ room_users w' "general" = active
    ∧ active `sublist_of` room_users w "general"
    ∧ Forall (λ u, ∃ t, entry_joinedAt u = Some t
                        ∧ clock w (ticks w) - 300000 < t) active.
Proof.
  intros stale live w. apply (active_users_reply_is_stored "general" w).
  intros n. reflexivity.
Defined.

Lemma filter_not_user_idem userId (l : list entry) :
  filter (λ u, entry_userId u ≠ userId) (filter (λ u, entry_userId u ≠ userId) l)
  = filter (λ u, entry_userId u ≠ userId) l.
Proof.
  apply filter_keeps_all. intros e He.
  by apply list_elem_of_filter in He as [He _].
Qed.

(** X11. Joining and leaving compose as expected on a healthy store.  A join
    followed by a leave of the same user leaves the other users' entries, in
    their order, and so the list as it was when the user had no entry.  A
    leave followed by a join gives the same list as the join alone. *)
Theorem join_leave_round_trip r username userId w :
  healthy w → r ≠ "" → truthy username = true → truthy userId = true →
  let joined := snd (join_room (Str r) username userId w) in
  let left := snd (leave_room (Str r) userId w) in
  room_users (snd (leave_room (Str r) userId joined)) r
  = filter (λ u, entry_userId u ≠ userId) (room_users w r)
  ∧ ((∀ e, e ∈ room_users w r → entry_userId e ≠ userId) →
     room_users (snd (leave_room (Str r) userId joined)) r = room_users w r)
  ∧ room_users (snd (join_room (Str r) username userId left)) r
    = room_users joined r.
Proof.
  intros Hw Hr Hn Hu joined left.
  assert (healthy joined) as Hj by by apply (handle_healthy (JoinRoom _ _ _)).
  assert (healthy left) as Hl by by apply (handle_healthy (LeaveRoom _ _)).
  assert (room_users (snd (leave_room (Str r) userId joined)) r
          = filter (λ u, entry_userId u ≠ userId) (room_users w r)) as Hround.
  { rewrite room_users_leave by done. subst joined.
    rewrite room_users_join by done.
    rewrite filter_app, filter_not_user_idem.
    rewrite filter_cons_False by (simpl; auto). by rewrite app_nil_r. }
  split; [exact Hround|]. split.
  - intros Habsent. rewrite Hround. by apply filter_keeps_all.
  - rewrite room_users_join by done. subst joined.
    rewrite room_users_join by done. subst left.
    rewrite room_users_leave by done. rewrite filter_not_user_idem.
    by rewrite leave_room_healthy.
Qed.

Lemma join_leave_round_trip_witness :
  let w := World {["room:general:users" :=
                     [EUser (User.mk (Str "u2") (Str "bob") 10)]]} []
             (λ _, 1000) 0 (λ _, false) in
  let joined := snd (join_room (Str "general") (Str "alice") (Str "u1") w) in
  room_users (snd (leave_room (Str "general") (Str "u1") joined)) "general"
  = room_users w "general".
Proof.
  intros w joined.
  destruct (join_leave_round_trip "general" (Str "alice") (Str "u1") w)
    as (_ & Hback & _).
  - intros n. reflexivity.
  - discriminate.
  - reflexivity.
  - reflexivity.
  - apply Hback. intros e He. vm_compute in He.
    apply list_elem_of_singleton in He as ->. discriminate.
Defined.

(** ** Message ids *)

(** X12. The id of a message is unique only as far as the pair of clock
    reading and sender is: two valid sends by the same sender get the same
    id exactly when the clock readings taken for their ids are equal, and
    two sends with the same reading get the same id exactly when the sender
    is the same. *)
Theorem message_ids_collide_iff r1 r2 n1 n2 u1 u2 msg1 msg2 img1 img2 w1 w2 :
  healthy w1 → healthy w2 → r1 ≠ "" → r2 ≠ "" →
  truthy n1 = true → truthy n2 = true → u1 ≠ "" → u2 ≠ "" →
  truthy msg1 = true → truthy msg2 = true →
  let t1 := clock w1 (ticks w1) in
  let t2 := clock w2 (ticks w2) in
  ∃ m1 m2,
    fst (send_message (Str r1) n1 (Str u1) msg1 img1 w1) = RSent m1
    ∧ fst (send_message (Str r2) n2 (Str u2) msg2 img2 w2) = RSent m2
    ∧ (u1 = u2 → (Message.id m1 = Message.id m2 ↔ t1 = t2))
    ∧ (t1 = t2 → (Message.id m1 = Message.id m2 ↔ u1 = u2)).
Proof.
  intros Hw1 Hw2 Hr1 Hr2 Hn1 Hn2 Hu1 Hu2 Hm1 Hm2 t1 t2.
  rewrite !send_message_healthy
    by (simpl; try apply bool_decide_eq_true; done).
  eexists _, _. split; [reflexivity|]. split; [reflexivity|].
  simpl. fold t1 t2. split.
  - intros ->. split; [|by intros ->].
    intros H. apply string_app_inv_tail in H. by apply (inj pretty) in H.
  - intros ->. split; [|by intros ->].
    intros H. apply (inj (String.app (pretty t2))) in H.
    by apply (inj (String.app "-")) in H.
Qed.

Lemma message_ids_collide_iff_witness :
  let w1 := fresh (λ _, 1000) in
  let w2 := snd (send_message (Str "general") (Str "alice") (Str "u1")
                   (Str "one") Null w1) in
  ∃ m1 m2,
    fst (send_message (Str "general") (Str "alice") (Str "u1") (Str "one")
           Null w1) = RSent m1
    ∧ fst (send_message (Str "general") (Str "alice") (Str "u1") (Str "two")
             Null w2) = RSent m2
    ∧ Message.id m1 = Message.id m2
    ∧ m1 ≠ m2.
Proof.
  intros w1 w2.
  destruct (message_ids_collide_iff "general" "general" (Str "alice")
              (Str "alice") "u1" "u1" (Str "one") (Str "two") Null Null w1 w2)
    as (m1 & m2 & H1 & H2 & Hsame & _);
    try (intros n; reflexivity); try discriminate; try reflexivity.
  exists m1, m2. split; [exact H1|]. split; [exact H2|]. split.
  - apply Hsame; reflexivity.
  - vm_compute in H1, H2. injection H1 as <-. injection H2 as <-.
    discriminate.
Defined.

(** ** A room the store has no key for *)

(** X14. On a healthy store that has no value under a room's keys, the two
    reading handlers answer with the empty list and leave the keys absent;
    leave-room succeeds and leaves an empty list under the key of users;
    join-room and send-message leave a list of one entry. *)
Theorem room_without_keys r username userId message imageUrl w :
  healthy w → r ≠ "" → truthy username = true → truthy userId = true →
  truthy message = true →
  kv w !! usersKey (Str r) = None → kv w !! messagesKey (Str r) = None →
  active_users r w
  = (RUsers [], World (kv w) (kvlog w ++ [KvGet (usersKey (Str r))])
                  (clock w) (S (ticks w)) (outage w))
  ∧ get_messages r w
    = (RMessages [], World (kv w) (kvlog w ++ [KvGet (messagesKey (Str r))])
                       (clock w) (ticks w) (outage w))
  ∧ fst (leave_room (Str r) userId w) = RSuccess
  ∧ kv (snd (leave_room (Str r) userId w)) !! usersKey (Str r) = Some []
  ∧ kv (snd (join_room (Str r) username userId w)) !! usersKey (Str r)
    = Some [EUser (User.mk userId username (clock w (ticks w)))]
  ∧ ∃ m, fst (send_message (Str r) username userId message imageUrl w)
         = RSent m
         ∧ kv (snd (send_message (Str r) username userId message imageUrl w))
             !! messagesKey (Str r) = Some [EMessage m].
Proof.
  intros Hw Hr Hn Hu Hm Husers Hmessages.
  rewrite active_users_healthy, get_messages_healthy, leave_room_healthy,
    join_room_healthy, send_message_healthy by done.
  unfold room_users, room_messages. rewrite Husers, Hmessages. simpl.
  rewrite !lookup_insert_eq.
  repeat (split; [done|]). eexists. split; reflexivity.
Qed.

Lemma room_without_keys_witness :
  let w := fresh (λ _, 1000) in
  fst (active_users "tech" w) = RUsers []
  ∧ fst (get_messages "tech" w) = RMessages []
  ∧ kv (snd (leave_room (Str "tech") (Str "u1") w)) !! "room:tech:users"
    = Some [].
Proof.
  intros w.
  destruct (room_without_keys "tech" (Str "alice") (Str "u1") (Str "hi") Null w)
    as (Hactive & Hget & _ & Hleave & _);
    try (intros n; reflexivity); try discriminate; try reflexivity.
  rewrite Hactive, Hget. split; [reflexivity|]. split; [reflexivity|].
  exact Hleave.
Defined.

(** ** The client's send *)

(** X15. The chat room posts nothing when it is already sending or when
    there is neither text nor a picked image.  Every request it does post,
    for non-empty room, user name and user id, passes the validation of
    send-message: on a healthy store it is accepted, and the message stored
    carries the trimmed text, or the placeholder when the text is empty. *)
Theorem client_send_is_accepted roomId username userId trimmed selectedImage
    sending w :
  healthy w → roomId ≠ "" → username ≠ "" → userId ≠ "" →
  (sendMessage roomId username userId trimmed selectedImage sending = None
   ↔ (trimmed = "" ∧ selectedImage = None) ∨ sending = true)
  ∧ ∀ q, sendMessage roomId username userId trimmed selectedImage sending
         = Some q →
         ∃ m, fst (handle q w) = RSent m
              ∧ last (room_messages (snd (handle q w)) roomId)
                = Some (EMessage m)
              ∧ Message.message m
                = Str (if bool_decide (trimmed = "") then "📷 Image"
                       else trimmed)
              ∧ Message.message m ≠ Str "".
Proof.
  intros Hw Hr Hn Hu. unfold sendMessage. split.
  - destruct sending; [rewrite orb_true_r; split; auto|]. rewrite orb_false_r.
    destruct (bool_decide (trimmed = "") && bool_decide (selectedImage = None))
      eqn:Hguard.
    + apply andb_prop in Hguard as [?%bool_decide_eq_true ?%bool_decide_eq_true].
      split; auto.
    + split; [done|]. intros [[-> ->] | ?]; [|done].
      by rewrite !bool_decide_true in Hguard.
  - intros q.
    destruct (_ || sending); [done|]. intros [= <-]. cbn [handle].
    assert (truthy (Str (if bool_decide (trimmed = "") then "📷 Image"
                         else trimmed)) = true) as Hm.
    { simpl. apply bool_decide_eq_true.
      case_bool_decide; [discriminate | assumption]. }
    rewrite send_message_healthy
      by first [exact Hm | simpl truthy; try apply bool_decide_eq_true; done].
    eexists. split; [reflexivity|]. cbv zeta. split; [|split].
    + unfold room_messages at 1. cbn [snd kv]. rewrite lookup_insert_eq.
      cbn [or_empty]. rewrite keep_last_100_eq. apply last_last_100_snoc.
    + reflexivity.
    + cbn [Message.message]. intros [= Hempty]. simpl in Hm.
      by rewrite Hempty in Hm.
Qed.

Lemma client_send_is_accepted_witness :
  ∃ m, fst (handle (SendMessage (Str "general") (Str "alice") (Str "u1")
                      (Str "📷 Image") (Str "https://img.example/1.png"))
              (fresh (λ _, 1000))) = RSent m
       ∧ Message.message m = Str "📷 Image".
Proof.
  destruct (client_send_is_accepted "general" "alice" "u1" ""
              (Some (Str "https://img.example/1.png")) false
              (fresh (λ _, 1000))) as [_ Hposted];
    try (intros n; reflexivity); try discriminate.
  destruct (Hposted _ eq_refl) as (m & Hm & _ & Htext & _).
  exists m. split; [exact Hm | exact Htext].
Defined.

(** X16. When an image is picked, the text is empty and the upload fails,
    the chat room still posts, and send-message accepts: the room then ends
    with a message whose text is the placeholder and which has no
    [imageUrl]. *)
Theorem failed_upload_posts_placeholder roomId username userId w :
  healthy w → roomId ≠ "" → username ≠ "" → userId ≠ "" →
  ∃ q m,
    sendMessage roomId username userId "" (Some Null) false = Some q
    ∧ fst (handle q w) = RSent m
    ∧ Message.message m = Str "📷 Image"
    ∧ Message.imageUrl m = Undefined
    ∧ last (room_messages (snd (handle q w)) roomId) = Some (EMessage m).
Proof.
  intros Hw Hr Hn Hu. eexists _, _. split; [reflexivity|]. cbn [handle].
  rewrite send_message_healthy
    by (simpl truthy; try apply bool_decide_eq_true; done).
  cbv zeta. split; [reflexivity|]. split; [reflexivity|].
  split; [reflexivity|].
  unfold room_messages at 1. cbn [snd kv]. rewrite lookup_insert_eq.
  cbn [or_empty]. rewrite keep_last_100_eq. apply last_last_100_snoc.
Qed.

Lemma failed_upload_posts_placeholder_witness :
  ∃ q m,
    sendMessage "general" "alice" "u1" "" (Some Null) false = Some q
    ∧ fst (handle q (fresh (λ _, 1000))) = RSent m
    ∧ Message.message m = Str "📷 Image"
    ∧ Message.imageUrl m = Undefined
    ∧ last (room_messages (snd (handle q (fresh (λ _, 1000)))) "general")
      = Some (EMessage m).
Proof.
  apply (failed_upload_posts_placeholder "general" "alice" "u1"
           (fresh (λ _, 1000))).
  - intros n. reflexivity.
  - discriminate.
  - discriminate.
  - discriminate.
Defined.
